(** * django_unicorn.call_method_parser

    A shallow embedding of [src/django_unicorn/call_method_parser.py]:
    [_get_expr_string], [eval_value], [parse_kwarg] and
    [parse_call_method_name], together with the properties of the three
    parsers.

    The module is pure Python glue around library calls: CPython's
    [ast.parse] and [ast.literal_eval], Django's [dateparse] functions and
    [uuid.UUID].  Those calls are the fields of the [Runtime] interface;
    everything the module itself does (attribute access on syntax nodes, the
    [try]/[except] blocks, the loop over [CASTERS], the comprehensions, the
    [$] prefix) is written out.  [functools.lru_cache] only memoises the
    three functions by argument and leaves their outcome unchanged, so it
    has no counterpart here. *)

From Stdlib Require Import String Ascii List ZArith Bool.
From Stdlib Require Import SpecFloat.
Import ListNotations.

Local Open Scope string_scope.
Local Open Scope list_scope.

Set Warnings "-register-all".

(* ===================================================================== *)
(** ** Exceptions *)
(* ===================================================================== *)

(** The exception classes that can reach the module.  [InvalidKwarg] is the
    module's own class and carries its message; the others are builtins. *)
Inductive exception : Type :=
| SyntaxError
| IndentationError
| TabError
| ValueError
| UnicodeError
| TypeError
| AttributeError
| IndexError
| OverflowError
| RecursionError
| MemoryError
| InvalidKwarg (message : string).

(** [isinstance(e, SyntaxError)]: the class and its builtin subclasses. *)
Definition is_SyntaxError (e : exception) : bool :=
  match e with
  | SyntaxError | IndentationError | TabError => true
  | _ => false
  end.

(** [isinstance(e, ValueError)]. *)
Definition is_ValueError (e : exception) : bool :=
  match e with
  | ValueError | UnicodeError => true
  | _ => false
  end.

(** The outcome of a Python call: a returned object or a raised exception. *)
Inductive result (A : Type) : Type :=
| Ret (a : A)
| Raise (e : exception).

Arguments Ret {A} a.
Arguments Raise {A} e.

Definition bind {A B : Type} (r : result A) (k : A -> result B) : result B :=
  match r with
  | Ret a => k a
  | Raise e => Raise e
  end.

Notation "x <- r ;; k" := (bind r (fun x => k))
  (at level 61, r at next level, right associativity).

(** [try: body  except cls: handler], where [catches] is the [isinstance]
    test of [cls].  An exception of another class, and one raised by the
    handler, leave the block. *)
Definition try_except {A : Type} (body : result A) (catches : exception -> bool)
    (handler : exception -> result A) : result A :=
  match body with
  | Ret a => Ret a
  | Raise e => if catches e then handler e else Raise e
  end.

(* ===================================================================== *)
(** ** Syntax trees and Python objects *)
(* ===================================================================== *)

(** The payload of an [ast.Constant] node. *)
Inductive constant : Type :=
| CNone
| CBool (b : bool)
| CInt (n : Z)
| CFloat (x : spec_float)
| CComplex (re im : spec_float)
| CStr (s : string)
| CBytes (bs : list ascii)
| CEllipsis.

(** Expression nodes.  The module inspects [Name], [Attribute] and [Call];
    [Constant] is what a quoted string or a number parses to; the remaining
    classes matter only in that they are none of these. *)
Inductive expr : Type :=
| Name (id : string)
| Attribute (value : expr) (attr : string)
| Constant (c : constant)
| Call (func : expr) (args : list expr) (keywords : list keyword)
| Subscript (value : expr) (slice : expr)
| UnaryOp (operand : expr)
| BinOp (left right : expr)
| List_ (elts : list expr)
| Tuple (elts : list expr)
with keyword : Type :=
| Keyword (arg : option string) (value : expr).

(** Statement nodes.  [Expr], [Assign], [AugAssign], [AnnAssign] and
    [Return] are the classes with a [value] field (optional in the last
    two); [OtherStmt] stands for every class without one ([Pass], [Import],
    [If], [FunctionDef], ...). *)
Inductive stmt : Type :=
| Expr (value : expr)
| Assign (targets : list expr) (value : expr)
| AugAssign (target : expr) (value : expr)
| AnnAssign (target annotation : expr) (value : option expr)
| Return (value : option expr)
| OtherStmt.

Record date : Type := MkDate { year : Z; month : Z; day : Z }.

Record time : Type :=
  MkTime { hour : Z; minute : Z; second : Z; microsecond : Z;
         utcoffset : option Z }.

(** Python objects: what [ast.literal_eval] and the casters return, and
    what [eval_value] is called with (a [str] or a syntax node). *)
Inductive object : Type :=
| VConst (c : constant)
| VTuple (elts : list object)
| VList (elts : list object)
| VSet (elts : list object)
| VDict (items : list (object * object))
| VDatetime (d : date) (t : time)
| VTime (t : time)
| VDate (d : date)
| VTimedelta (days seconds microseconds : Z)
| VUUID (int : N)
| VNode (node : expr).

Abbreviation VStr s := (VConst (CStr s)).
Abbreviation VNone := (VConst CNone).

Definition is_nil {A : Type} (l : list A) : bool :=
  match l with
  | [] => true
  | _ :: _ => false
  end.

Definition float_is_zero (x : spec_float) : bool :=
  match x with
  | S754_zero _ => true
  | _ => false
  end.

(** [bool(v)], the test of [if casted_value:]. *)
Definition truthy (v : object) : bool :=
  match v with
  | VConst CNone => false
  | VConst (CBool b) => b
  | VConst (CInt n) => negb (Z.eqb n 0)
  | VConst (CFloat x) => negb (float_is_zero x)
  | VConst (CComplex re im) => negb (float_is_zero re && float_is_zero im)
  | VConst (CStr s) => negb (String.eqb s "")
  | VConst (CBytes bs) => negb (is_nil bs)
  | VConst CEllipsis => true
  | VTuple elts | VList elts | VSet elts => negb (is_nil elts)
  | VDict items => negb (is_nil items)
  | VDatetime _ _ | VTime _ | VDate _ => true
  | VTimedelta d s us => negb (Z.eqb d 0 && Z.eqb s 0 && Z.eqb us 0)
  | VUUID _ => true
  | VNode _ => true
  end.

(** A [dict] in insertion order.  Storing under a key that is present
    replaces the value in place; a new key goes to the end. *)
Definition dict (K : Type) : Type := list (K * object).

Fixpoint dict_set {K : Type} (eqb : K -> K -> bool) (d : dict K) (k : K)
    (v : object) : dict K :=
  match d with
  | [] => [(k, v)]
  | (k', v') :: d' =>
      if eqb k' k then (k', v) :: d' else (k', v') :: dict_set eqb d' k v
  end.

Fixpoint dict_get {K : Type} (eqb : K -> K -> bool) (d : dict K) (k : K)
    : option object :=
  match d with
  | [] => None
  | (k', v') :: d' => if eqb k' k then Some v' else dict_get eqb d' k
  end.

(** Equality of the keys of [kwargs]: a keyword name, or [None] for a
    [**mapping] argument. *)
Definition arg_eqb (a b : option string) : bool :=
  match a, b with
  | Some x, Some y => String.eqb x y
  | None, None => true
  | _, _ => false
  end.

(* ===================================================================== *)
(** ** Attribute access on syntax nodes *)
(* ===================================================================== *)

(** [node.id]: only [ast.Name] has the field. *)
Definition getattr_id (node : expr) : result string :=
  match node with
  | Name id => Ret id
  | _ => Raise AttributeError
  end.

(** [node.value] on a statement; [None] when the optional field is unset. *)
Definition getattr_value (node : stmt) : result (option expr) :=
  match node with
  | Expr value => Ret (Some value)
  | Assign _ value => Ret (Some value)
  | AugAssign _ value => Ret (Some value)
  | AnnAssign _ _ value => Ret value
  | Return value => Ret value
  | OtherStmt => Raise AttributeError
  end.

(** [xs[0]]. *)
Definition getitem0 {A : Type} (xs : list A) : result A :=
  match xs with
  | x :: _ => Ret x
  | [] => Raise IndexError
  end.

(* ===================================================================== *)
(** ** [_get_expr_string] *)
(* ===================================================================== *)

(** The [while current_expr:] loop, with [expr_str] as accumulator.  A node
    is always true, so the loop ends at a [break]: on a [Name], or on a node
    that is neither a [Name] nor an [Attribute]. *)
Fixpoint get_expr_string_loop (current_expr : expr) (expr_str : string)
    : string :=
  match current_expr with
  | Name id =>
      if String.eqb expr_str "" then id else id ++ "." ++ expr_str
  | Attribute value attr =>
      get_expr_string_loop value
        (if String.eqb expr_str "" then attr else attr ++ "." ++ expr_str)
  | _ => expr_str
  end.

Definition _get_expr_string (e : expr) : string :=
  get_expr_string_loop e "".

(* ===================================================================== *)
(** ** The library calls *)
(* ===================================================================== *)

(** The five entries of [CASTERS], named after the call each lambda makes. *)
Inductive caster : Type :=
| ParseDatetime
| ParseTime
| ParseDate
| ParseDuration
| Uuid.

(** What the module calls and does not define.

    - [ast_parse source] is [ast.parse(source, "eval")].  The second
      positional parameter of [ast.parse] is the file name, so the mode is
      the default one and the tree is a module; the outcome is its [body].
    - [literal_eval] is [ast.literal_eval], given a [str] or a node.
    - the remaining fields are the functions the casters call. *)
Class Runtime : Type := {
  ast_parse : string -> result (list stmt);
  literal_eval : object -> result object;
  parse_datetime : object -> result object;
  parse_time : object -> result object;
  parse_date : object -> result object;
  parse_duration : object -> result object;
  UUID : object -> result object
}.

Section Parser.

Context {rt : Runtime}.

Definition call_caster (c : caster) (a : object) : result object :=
  match c with
  | ParseDatetime => parse_datetime a
  | ParseTime => parse_time a
  | ParseDate => parse_date a
  | ParseDuration => parse_duration a
  | Uuid => UUID a
  end.

Definition CASTERS : list caster :=
  [ParseDatetime; ParseTime; ParseDate; ParseDuration; Uuid].

(* ===================================================================== *)
(** ** [eval_value] *)
(* ===================================================================== *)

(** [for caster in CASTERS: ...], the handler of [except SyntaxError].  The
    first component lists the casters that were called, in call order; the
    second is the value [eval_value] goes on to return, or the exception
    that leaves the loop. *)
Fixpoint for_caster_in (casters : list caster) (value : object)
    : list caster * result object :=
  match casters with
  | [] => ([], Ret value)
  | caster :: rest =>
      let next :=
        let (called, r) := for_caster_in rest value in (caster :: called, r) in
      match call_caster caster value with
      | Ret casted_value =>
          if truthy casted_value then ([caster], Ret casted_value) else next
      | Raise e =>
          if is_ValueError e then next else ([caster], Raise e)
      end
  end.

(** [eval_value] with the list of casters it called. *)
Definition eval_value_calls (value : object) : list caster * result object :=
  match literal_eval value with
  | Ret value' => ([], Ret value')
  | Raise e =>
      if is_SyntaxError e then for_caster_in CASTERS value else ([], Raise e)
  end.

Definition eval_value (value : object) : result object :=
  snd (eval_value_calls value).

(* ===================================================================== *)
(** ** [parse_kwarg] *)
(* ===================================================================== *)

(** The inner [try] of [parse_kwarg] and its [except ValueError] handler.
    [assign.targets[0]] is taken before the block: the only exception it
    can raise is [IndexError], which the handler does not catch. *)
Definition parse_assign (targets : list expr) (value : expr)
    (raise_if_unparseable : bool) : result (dict string) :=
  target <- getitem0 targets ;;
  try_except
    (let key := _get_expr_string target in
     v <- eval_value (VNode value) ;;
     Ret [(key, v)])
    is_ValueError
    (fun e =>
       if raise_if_unparseable then Raise e
       else
         let value' := _get_expr_string value in
         id <- getattr_id target ;;
         Ret [(id, VStr value')]).

Definition parse_kwarg (kwarg : string) (raise_if_unparseable : bool)
    : result (dict string) :=
  try_except
    (tree <- ast_parse kwarg ;;
     match tree with
     | Assign targets value :: _ =>
         parse_assign targets value raise_if_unparseable
     | _ => Raise (InvalidKwarg ("'" ++ kwarg ++ "' is invalid"))
     end)
    is_SyntaxError
    (fun _ => Raise (InvalidKwarg ("'" ++ kwarg ++ "' could not be parsed"))).

(* ===================================================================== *)
(** ** [parse_call_method_name] *)
(* ===================================================================== *)

(** [s.startswith("$")]. *)
Definition startswith_dollar (s : string) : bool :=
  match s with
  | String c _ => Ascii.eqb c "$"
  | EmptyString => false
  end.

(** [s[1:]]. *)
Definition slice_from_1 (s : string) : string :=
  match s with
  | String _ rest => rest
  | EmptyString => EmptyString
  end.

(** [[eval_value(arg) for arg in call.args]], left to right. *)
Fixpoint eval_args (args : list expr) : result (list object) :=
  match args with
  | [] => Ret []
  | arg :: rest =>
      v <- eval_value (VNode arg) ;;
      vs <- eval_args rest ;;
      Ret (v :: vs)
  end.

(** [{kw.arg: eval_value(kw.value) for kw in call.keywords}], filling
    [kwargs] left to right. *)
Fixpoint eval_keywords (keywords : list keyword) (kwargs : dict (option string))
    : result (dict (option string)) :=
  match keywords with
  | [] => Ret kwargs
  | Keyword arg value :: rest =>
      v <- eval_value (VNode value) ;;
      eval_keywords rest (dict_set arg_eqb kwargs arg v)
  end.

Definition parsed_call : Type :=
  (string * list object * dict (option string))%type.

(** The [if tree.body and isinstance(tree.body[0].value, ast.Call):] block,
    from the stripped name and the parsed body to the three variables. *)
Definition call_parts (call_method_name : string) (body : list stmt)
    : result parsed_call :=
  match body with
  | [] => Ret (call_method_name, [], [])
  | first :: _ =>
      value <- getattr_value first ;;
      match value with
      | Some (Call func args keywords) =>
          method_name <- getattr_id func ;;
          args' <- eval_args args ;;
          kwargs <- eval_keywords keywords [] ;;
          Ret (method_name, args', kwargs)
      | _ => Ret (call_method_name, [], [])
      end
  end.

Definition parse_call_method_name (call_method_name : string)
    : result parsed_call :=
  let dollar_func := startswith_dollar call_method_name in
  let call_method_name :=
    if dollar_func then slice_from_1 call_method_name else call_method_name in
  body <- ast_parse call_method_name ;;
  parts <- call_parts call_method_name body ;;
  let '(method_name, args, kwargs) := parts in
  let method_name :=
    if dollar_func then ("$" ++ method_name)%string else method_name in
  Ret (method_name, args, kwargs).

End Parser.

(* ===================================================================== *)
(** ** A sample runtime *)
(* ===================================================================== *)

(** What CPython and Django answer on the sources and strings used in the
    examples further down, as finite tables.  A key outside a table gets
    the table's last line; no statement below relies on such a key. *)
Module Sample.

Fixpoint lookup {A : Type} (table : list (string * A)) (key : string)
    (default : A) : A :=
  match table with
  | [] => default
  | (k, a) :: table' => if String.eqb k key then a else lookup table' key default
  end.

Definition call (func : expr) (args : list expr) : list stmt :=
  [Expr (Call func args [])].

Definition sources : list (string * result (list stmt)) :=
  [ ("", Ret []);
    ("no_parens", Ret [Expr (Name "no_parens")]);
    ("refresh()", Ret (call (Name "refresh") []));
    ("set_name('Bob')", Ret (call (Name "set_name") [Constant (CStr "Bob")]));
    ("m('2020-01-01T00:00:00')",
      Ret (call (Name "m") [Constant (CStr "2020-01-01T00:00:00")]));
    ("m(when='2020-01-01T00:00:00')",
      Ret [Expr (Call (Name "m") []
                   [Keyword (Some "when") (Constant (CStr "2020-01-01T00:00:00"))])]);
    ("obj.method()", Ret (call (Attribute (Name "obj") "method") []));
    ("x=1", Ret [Assign [Name "x"] (Constant (CInt 1))]);
    ("x=some_undefined_name",
      Ret [Assign [Name "x"] (Name "some_undefined_name")]);
    ("a.b=foo", Ret [Assign [Attribute (Name "a") "b"] (Name "foo")]);
    ("a.b.c=foo",
      Ret [Assign [Attribute (Attribute (Name "a") "b") "c"] (Name "foo")]);
    ("not an assignment", Raise SyntaxError) ].

Definition literals : list (string * result object) :=
  [ ("123", Ret (VConst (CInt 123)));
    ("'a'", Ret (VStr "a"));
    ("some_undefined_name", Raise ValueError);
    ("hello world", Raise SyntaxError);
    ("2020-01-01T00:00:00", Raise SyntaxError);
    ("0 00:00:00", Raise SyntaxError);
    ("1000000000 00:00:00", Raise SyntaxError);
    ("999999999999 00:00:00", Raise SyntaxError) ].

(** [ast.literal_eval]: a [str] is parsed first; a node is converted as it
    is, a [Constant] to its payload and a name, attribute chain or
    subscript to a [ValueError]. *)
Definition sample_literal_eval (v : object) : result object :=
  match v with
  | VConst (CStr s) => lookup literals s (Raise SyntaxError)
  | VNode (Constant c) => Ret (VConst c)
  | _ => Raise ValueError
  end.

(** A [dateparse] function on a [str]: its table, [None] outside it. *)
Definition on_str (table : list (string * result object)) (v : object)
    : result object :=
  match v with
  | VConst (CStr s) => lookup table s (Ret VNone)
  | _ => Raise TypeError
  end.

Definition datetimes : list (string * result object) :=
  [ ("2020-01-01T00:00:00",
      Ret (VDatetime (MkDate 2020 1 1) (MkTime 0 0 0 0 None))) ].

(** [timedelta] accepts at most 999999999 days and raises [OverflowError]
    beyond; [timedelta(0)] is a false object. *)
Definition durations : list (string * result object) :=
  [ ("0 00:00:00", Ret (VTimedelta 0 0 0));
    ("1000000000 00:00:00", Raise OverflowError);
    ("999999999999 00:00:00", Raise OverflowError) ].

Definition sample_UUID (v : object) : result object :=
  match v with
  | VConst (CStr _) => Raise ValueError
  | _ => Raise AttributeError
  end.

#[export] Instance runtime : Runtime := {
  ast_parse := fun source => lookup sources source (Raise SyntaxError);
  literal_eval := sample_literal_eval;
  parse_datetime := on_str datetimes;
  parse_time := on_str [];
  parse_date := on_str [];
  parse_duration := on_str durations;
  UUID := sample_UUID
}.

End Sample.

(* ===================================================================== *)
(** ** Predicates used in the statements *)
(* ===================================================================== *)

(** The two outcomes of a caster after which the loop goes on to the next
    one: a false object, or an exception that [except ValueError] catches. *)
Definition not_applicable (r : result object) : bool :=
  match r with
  | Ret casted_value => negb (truthy casted_value)
  | Raise e => is_ValueError e
  end.

(** The callee of a leading call statement, when it is a name, is not the
    empty string: Python's grammar has no empty identifier. *)
Definition callee_id_nonempty (body : list stmt) : bool :=
  match body with
  | first :: _ =>
      match getattr_value first with
      | Ret (Some (Call (Name id) _ _)) => negb (String.eqb id "")
      | _ => true
      end
  | [] => true
  end.

(** The text that is parsed: the argument without its leading [$]. *)
Definition callee_source (call_method_name : string) : string :=
  if startswith_dollar call_method_name then slice_from_1 call_method_name
  else call_method_name.

Definition is_Name (e : expr) : bool :=
  match e with
  | Name _ => true
  | _ => false
  end.

Definition keyword_arg (kw : keyword) : option string :=
  match kw with
  | Keyword arg _ => arg
  end.

(** [root.a1.a2. ... .an]: the attribute accesses [attrs], innermost first,
    on [root]. *)
Definition attribute_chain (root : expr) (attrs : list string) : expr :=
  fold_left Attribute attrs root.

(** What one turn of the loop of [_get_expr_string] makes of [expr_str]. *)
Definition prepend (name expr_str : string) : string :=
  if String.eqb expr_str "" then name else name ++ "." ++ expr_str.

Definition is_Attribute (e : expr) : bool :=
  match e with
  | Attribute _ _ => true
  | _ => false
  end.

(** [isinstance(value, ast.Call)] on the [value] field of a statement. *)
Definition is_Call (value : option expr) : bool :=
  match value with
  | Some (Call _ _ _) => true
  | _ => false
  end.

(** [tree.body and isinstance(tree.body[0], ast.Assign)]. *)
Definition leading_Assign (body : list stmt) : bool :=
  match body with
  | Assign _ _ :: _ => true
  | _ => false
  end.

(** The keys of a [dict], in order. *)
Definition keys {K : Type} (d : dict K) : list K := map fst d.

(** More sources for the sample runtime, with the answers of [ast.parse]. *)
Module Extra.

Definition abc : expr := Attribute (Attribute (Name "a") "b") "c".

(** [x=] followed by a null byte.  CPython up to 3.11 refuses such a source
    with [ValueError] ("source code string cannot contain null bytes"). *)
Definition nul_assignment : string := "x=" ++ String Ascii.zero "".

Definition sources : list (string * result (list stmt)) :=
  [ (nul_assignment, Raise ValueError);
    ("pass", Ret [OtherStmt]);
    ("a.b.c=1", Ret [Assign [abc] (Constant (CInt 1))]);
    ("a[0]=1",
      Ret [Assign [Subscript (Name "a") (Constant (CInt 0))] (Constant (CInt 1))]);
    ("x=a.b.c", Ret [Assign [Name "x"] abc]);
    ("f(1, x)",
      Ret [Expr (Call (Name "f") [Constant (CInt 1); Name "x"] [])]);
    ("f(1, 'a', k=2, j='b')",
      Ret [Expr (Call (Name "f") [Constant (CInt 1); Constant (CStr "a")]
                   [Keyword (Some "k") (Constant (CInt 2));
                    Keyword (Some "j") (Constant (CStr "b"))])]) ].

Definition runtime : Runtime := {|
  ast_parse := fun source =>
    Sample.lookup sources source (ast_parse (Runtime := Sample.runtime) source);
  literal_eval := Sample.sample_literal_eval;
  parse_datetime := Sample.on_str Sample.datetimes;
  parse_time := Sample.on_str [];
  parse_date := Sample.on_str [];
  parse_duration := Sample.on_str Sample.durations;
  UUID := Sample.sample_UUID
|}.

End Extra.

(* ===================================================================== *)
(** ** The exception classes *)
(* ===================================================================== *)

Lemma ValueError_not_SyntaxError (e : exception) :
  is_ValueError e = true -> is_SyntaxError e = false.
Proof. destruct e; simpl; congruence. Qed.

Lemma try_except_Ret {A : Type} (a : A) catches handler :
  try_except (Ret a) catches handler = Ret a.
Proof. reflexivity. Qed.

Lemma try_except_pass {A : Type} (e : exception) catches
    (handler : exception -> result A) :
  catches e = false -> try_except (Raise e) catches handler = Raise e.
Proof. intros H. simpl. now rewrite H. Qed.

Lemma try_except_caught {A : Type} (e : exception) catches
    (handler : exception -> result A) :
  catches e = true -> try_except (Raise e) catches handler = handler e.
Proof. intros H. simpl. now rewrite H. Qed.

(* ===================================================================== *)
(** ** [_get_expr_string] *)
(* ===================================================================== *)

Example get_expr_string_chain :
  _get_expr_string (Attribute (Attribute (Name "a") "b") "c") = "a.b.c".
Proof. reflexivity. Qed.

Lemma get_expr_string_Name (id : string) : _get_expr_string (Name id) = id.
Proof. reflexivity. Qed.

(* ===================================================================== *)
(** ** Dictionaries *)
(* ===================================================================== *)

Lemma arg_eqb_eq (a b : option string) : arg_eqb a b = true <-> a = b.
Proof.
  destruct a as [x |], b as [y |]; simpl; split; try congruence.
  - intros H. apply String.eqb_eq in H. now subst.
  - intros [= ->]. apply String.eqb_refl.
Qed.

Lemma arg_eqb_refl (a : option string) : arg_eqb a a = true.
Proof. now apply arg_eqb_eq. Qed.

Lemma dict_get_set_same (d : dict (option string)) (k : option string)
    (v : object) :
  dict_get arg_eqb (dict_set arg_eqb d k v) k = Some v.
Proof.
  induction d as [| [k' v'] d IH]; simpl.
  - now rewrite arg_eqb_refl.
  - destruct (arg_eqb k' k) eqn:E; simpl; rewrite E; [reflexivity | exact IH].
Qed.

Lemma dict_get_set_other (d : dict (option string)) (k k' : option string)
    (v : object) :
  arg_eqb k k' = false ->
  dict_get arg_eqb (dict_set arg_eqb d k v) k' = dict_get arg_eqb d k'.
Proof.
  intros Hk. induction d as [| [k1 v1] d IH]; simpl.
  - now rewrite Hk.
  - destruct (arg_eqb k1 k) eqn:E; simpl.
    + apply arg_eqb_eq in E. subst k1. now rewrite Hk.
    + destruct (arg_eqb k1 k'); [reflexivity | exact IH].
Qed.

(* ===================================================================== *)
(** ** Attribute chains *)
(* ===================================================================== *)

Lemma attribute_chain_snoc (root : expr) (attrs : list string) (attr : string) :
  attribute_chain root (attrs ++ [attr])
    = Attribute (attribute_chain root attrs) attr.
Proof. unfold attribute_chain. now rewrite fold_left_app. Qed.

(** The loop walks a chain from its last attribute inwards and reaches the
    root with the attributes joined in front of what it started from. *)
Lemma get_expr_string_loop_chain (root : expr) (attrs : list string)
    (expr_str : string) :
  get_expr_string_loop (attribute_chain root attrs) expr_str
    = get_expr_string_loop root (fold_right prepend expr_str attrs).
Proof.
  revert expr_str. induction attrs as [| attr attrs IH] using rev_ind;
    intros expr_str.
  - reflexivity.
  - rewrite attribute_chain_snoc, fold_right_app. simpl. apply IH.
Qed.

Lemma concat_dot_nonempty (name : string) (names : list string) :
  name <> "" -> String.concat "." (name :: names) <> "".
Proof.
  intros Hname. destruct name as [| c name]; [now elim Hname |].
  destruct names; simpl; discriminate.
Qed.

Lemma fold_right_prepend (names : list string) :
  Forall (fun name => name <> "") names ->
  fold_right prepend "" names = String.concat "." names.
Proof.
  induction 1 as [| name names Hname Hnames IH]; [reflexivity |].
  simpl fold_right. rewrite IH. unfold prepend.
  destruct Hnames as [| name' names Hname' _]; [reflexivity |].
  destruct (String.eqb_spec (String.concat "." (name' :: names)) "") as [E |].
  - now apply concat_dot_nonempty in E.
  - reflexivity.
Qed.

Lemma prepend_concat (name : string) (names : list string) :
  Forall (fun n => n <> "") names ->
  prepend name (String.concat "." names) = String.concat "." (name :: names).
Proof.
  intros Hnames. unfold prepend.
  destruct Hnames as [| name' names Hname' _]; [reflexivity |].
  destruct (String.eqb_spec (String.concat "." (name' :: names)) "") as [E |].
  - now apply concat_dot_nonempty in E.
  - reflexivity.
Qed.

Lemma get_expr_string_Name_chain (id : string) (attrs : list string) :
  Forall (fun attr => attr <> "") attrs ->
  _get_expr_string (attribute_chain (Name id) attrs)
    = String.concat "." (id :: attrs).
Proof.
  intros Hattrs. unfold _get_expr_string.
  rewrite get_expr_string_loop_chain. rewrite (fold_right_prepend _ Hattrs).
  exact (prepend_concat id attrs Hattrs).
Qed.

(** X1.  On a name followed by attribute accesses, [_get_expr_string]
    returns the identifiers joined by dots, in source order. *)
Theorem get_expr_string_dotted (id : string) (attrs : list string) :
  Forall (fun attr => attr <> "") attrs ->
  _get_expr_string (attribute_chain (Name id) attrs)
    = String.concat "." (id :: attrs).
Proof. exact (get_expr_string_Name_chain id attrs). Qed.

(** X2.  When the attribute accesses sit on a node that is neither a name
    nor an attribute (a call, a subscript, a constant), [_get_expr_string]
    leaves that node out and returns the attributes joined by dots: the
    empty string when there is none. *)
Theorem get_expr_string_drops_root (root : expr) (attrs : list string) :
  is_Name root = false -> is_Attribute root = false ->
  Forall (fun attr => attr <> "") attrs ->
  _get_expr_string (attribute_chain root attrs) = String.concat "." attrs.
Proof.
  intros Hname Hattr Hattrs. unfold _get_expr_string.
  rewrite get_expr_string_loop_chain. rewrite (fold_right_prepend _ Hattrs).
  destruct root; simpl in *; (discriminate || reflexivity).
Qed.

(* ===================================================================== *)
(** ** Keys of a dictionary *)
(* ===================================================================== *)

Lemma keys_dict_set (d : dict (option string)) (k k' : option string)
    (v : object) :
  In k' (keys (dict_set arg_eqb d k v)) <-> In k' (keys d) \/ k' = k.
Proof.
  induction d as [| [k1 v1] d IH]; simpl.
  - intuition congruence.
  - destruct (arg_eqb k1 k) eqn:E; simpl.
    + apply arg_eqb_eq in E. subst k1. intuition congruence.
    + unfold keys in IH. rewrite IH. tauto.
Qed.

Lemma NoDup_dict_set (d : dict (option string)) (k : option string)
    (v : object) :
  NoDup (keys d) -> NoDup (keys (dict_set arg_eqb d k v)).
Proof.
  induction d as [| [k1 v1] d IH]; simpl; intros Hd.
  - constructor; [intros [] | constructor].
  - destruct (arg_eqb k1 k) eqn:E; simpl; [exact Hd |].
    inversion Hd as [| ? ? Hk1 Hd']; subst. constructor.
    + intros Hin. apply keys_dict_set in Hin. destruct Hin as [Hin | ->].
      * now apply Hk1.
      * rewrite arg_eqb_refl in E. discriminate.
    + now apply IH.
Qed.

Lemma dollar_round_trip (s : string) :
  startswith_dollar s = true -> String "$" (slice_from_1 s) = s.
Proof.
  destruct s as [| c s]; simpl; [discriminate |].
  intros H. apply Ascii.eqb_eq in H. now subst.
Qed.

Section Properties.

Context {rt : Runtime}.

(* ===================================================================== *)
(** ** The loop over [CASTERS] *)
(* ===================================================================== *)

Lemma for_caster_in_next (c : caster) (rest : list caster) (value : object) :
  not_applicable (call_caster c value) = true ->
  for_caster_in (c :: rest) value =
    (c :: fst (for_caster_in rest value), snd (for_caster_in rest value)).
Proof.
  intros H. simpl. unfold not_applicable in H.
  destruct (call_caster c value) as [w | e].
  - apply negb_true_iff in H. rewrite H.
    now destruct (for_caster_in rest value).
  - rewrite H. now destruct (for_caster_in rest value).
Qed.

Lemma for_caster_in_skip (before rest : list caster) (value : object) :
  Forall (fun k => not_applicable (call_caster k value) = true) before ->
  for_caster_in (before ++ rest) value =
    (before ++ fst (for_caster_in rest value), snd (for_caster_in rest value)).
Proof.
  induction 1 as [| c before Hc _ IH]; simpl app.
  - now destruct (for_caster_in rest value).
  - rewrite for_caster_in_next by exact Hc. now rewrite IH.
Qed.

Lemma for_caster_in_match (c : caster) (rest : list caster) (value w : object) :
  call_caster c value = Ret w -> truthy w = true ->
  for_caster_in (c :: rest) value = ([c], Ret w).
Proof. intros Hc Hw. simpl. now rewrite Hc, Hw. Qed.

Lemma for_caster_in_raise (c : caster) (rest : list caster) (value : object)
    (e : exception) :
  call_caster c value = Raise e -> is_ValueError e = false ->
  for_caster_in (c :: rest) value = ([c], Raise e).
Proof. intros Hc He. simpl. now rewrite Hc, He. Qed.

(** The first caster of the list is always called. *)
Lemma for_caster_in_head (c : caster) (rest : list caster) (value : object) :
  exists called, fst (for_caster_in (c :: rest) value) = c :: called.
Proof.
  simpl. destruct (call_caster c value) as [w | e].
  - destruct (truthy w); [now exists [] |].
    destruct (for_caster_in rest value). simpl. eauto.
  - destruct (is_ValueError e); [| now exists []].
    destruct (for_caster_in rest value). simpl. eauto.
Qed.

Lemma for_caster_in_exhausted (casters : list caster) (value : object) :
  Forall (fun k => not_applicable (call_caster k value) = true) casters ->
  for_caster_in casters value = (casters, Ret value).
Proof.
  intros H. rewrite <- (app_nil_r casters) at 1.
  rewrite for_caster_in_skip by exact H. simpl. now rewrite app_nil_r.
Qed.

(** Every exception that leaves the loop was raised by a caster and is not
    a [ValueError]. *)
Lemma for_caster_in_Raise (casters : list caster) (value : object)
    (e : exception) :
  snd (for_caster_in casters value) = Raise e ->
  exists c, In c casters /\ call_caster c value = Raise e
            /\ is_ValueError e = false.
Proof.
  induction casters as [| c rest IH]; simpl.
  - discriminate.
  - destruct (call_caster c value) as [w | e'] eqn:Hc.
    + destruct (truthy w); simpl.
      * discriminate.
      * destruct (for_caster_in rest value) as [called r]. simpl in *.
        intros Hr. destruct (IH Hr) as (k & Hk & Hke). eauto.
    + destruct (is_ValueError e') eqn:He'; simpl.
      * destruct (for_caster_in rest value) as [called r]. simpl in *.
        intros Hr. destruct (IH Hr) as (k & Hk & Hke). eauto.
      * intros [= <-]. eauto.
Qed.

Lemma eval_value_calls_syntax (value : object) (e : exception) :
  literal_eval value = Raise e -> is_SyntaxError e = true ->
  eval_value_calls value = for_caster_in CASTERS value.
Proof. intros H He. unfold eval_value_calls. now rewrite H, He. Qed.

Lemma eval_value_calls_other (value : object) (e : exception) :
  literal_eval value = Raise e -> is_SyntaxError e = false ->
  eval_value_calls value = ([], Raise e).
Proof. intros H He. unfold eval_value_calls. now rewrite H, He. Qed.

Lemma eval_value_calls_Ret (value v : object) :
  literal_eval value = Ret v -> eval_value_calls value = ([], Ret v).
Proof. intros H. unfold eval_value_calls. now rewrite H. Qed.

(* ===================================================================== *)
(** ** The Literal Evaluator *)
(* ===================================================================== *)

(** C3, as amended.  When [ast.literal_eval] fails, [eval_value] does one
    of two things.  After a [SyntaxError] it runs the loop over [CASTERS],
    starting with the datetime caster; it returns without raising whenever
    every exception the casters raise on the input is a [ValueError], and
    when a caster, reached after casters that were all passed over, raises
    an exception that is no [ValueError], [eval_value] raises that
    exception.  After any other exception of [ast.literal_eval] it calls no
    caster and raises that exception. *)
Theorem eval_value_failure_split (value : object) (e : exception) :
  literal_eval value = Raise e ->
  (is_SyntaxError e = true ->
     eval_value_calls value = for_caster_in CASTERS value /\
     (exists called, fst (eval_value_calls value) = ParseDatetime :: called) /\
     ((forall c e', call_caster c value = Raise e' -> is_ValueError e' = true) ->
        exists v, eval_value value = Ret v) /\
     (forall before c after e',
        CASTERS = before ++ c :: after ->
        Forall (fun k => not_applicable (call_caster k value) = true) before ->
        call_caster c value = Raise e' -> is_ValueError e' = false ->
        eval_value_calls value = (before ++ [c], Raise e') /\
        eval_value value = Raise e')) /\
  (is_SyntaxError e = false ->
     eval_value_calls value = ([], Raise e) /\ eval_value value = Raise e).
Proof.
  intros H. split; intros He.
  - rewrite (eval_value_calls_syntax _ _ H He).
    split; [reflexivity | split; [| split]].
    + apply for_caster_in_head.
    + intros Hcasters. unfold eval_value.
      rewrite (eval_value_calls_syntax _ _ H He).
      destruct (snd (for_caster_in CASTERS value)) as [v | e'] eqn:Hr.
      * now exists v.
      * apply for_caster_in_Raise in Hr. destruct Hr as (c & _ & Hc & Hne).
        apply Hcasters in Hc. congruence.
    + intros before c after e' Hsplit Hbefore Hc He'. unfold eval_value.
      rewrite (eval_value_calls_syntax _ _ H He), Hsplit.
      rewrite for_caster_in_skip by exact Hbefore.
      now rewrite (for_caster_in_raise _ after _ _ Hc He').
  - unfold eval_value. now rewrite (eval_value_calls_other _ _ H He).
Qed.

(** C4, as amended.  After a [SyntaxError] from [ast.literal_eval] the
    casters are called in the order datetime, time, date, duration, UUID.
    A caster that returns a false object or raises a [ValueError] is passed
    over.  The first caster to return a true object ends the loop: its
    object is the result and no later caster is called.  A caster that
    raises any other exception ends the loop as well, and the exception
    reaches the caller.  When all five are passed over the input itself is
    returned. *)
Theorem casters_first_match_in_order (value : object) (e : exception) :
  literal_eval value = Raise e -> is_SyntaxError e = true ->
  CASTERS = [ParseDatetime; ParseTime; ParseDate; ParseDuration; Uuid] /\
  (forall before c after,
     CASTERS = before ++ c :: after ->
     Forall (fun k => not_applicable (call_caster k value) = true) before ->
     (forall w, call_caster c value = Ret w -> truthy w = true ->
        eval_value_calls value = (before ++ [c], Ret w)) /\
     (forall e', call_caster c value = Raise e' -> is_ValueError e' = false ->
        eval_value_calls value = (before ++ [c], Raise e'))) /\
  (Forall (fun k => not_applicable (call_caster k value) = true) CASTERS ->
     eval_value_calls value = (CASTERS, Ret value)).
Proof.
  intros H He. rewrite (eval_value_calls_syntax _ _ H He).
  split; [reflexivity | split].
  - intros before c after Hsplit Hbefore. rewrite Hsplit.
    rewrite for_caster_in_skip by exact Hbefore.
    split.
    + intros w Hc Hw. now rewrite (for_caster_in_match _ after _ _ Hc Hw).
    + intros e' Hc He'. now rewrite (for_caster_in_raise _ after _ _ Hc He').
  - apply for_caster_in_exhausted.
Qed.

Lemma not_applicable_caster (c : caster) (value : object) :
  (forall w, call_caster c value = Ret w -> truthy w = false) ->
  (forall e, call_caster c value = Raise e -> is_ValueError e = true) ->
  not_applicable (call_caster c value) = true.
Proof.
  intros Hret Hraise. destruct (call_caster c value) as [w | e]; simpl.
  - now rewrite (Hret w eq_refl).
  - now apply Hraise.
Qed.

(** C7, as amended.  Let [ast.literal_eval] raise a [SyntaxError] on a
    string and let no caster return a true object for it.  When every
    exception the casters raise on the string is a [ValueError],
    [eval_value] calls all five casters and returns the string it was
    given, as a plain [str].  When a caster raises an exception that is no
    [ValueError], and the casters before it raised none, [eval_value]
    raises that exception and the string is not returned. *)
Theorem eval_value_unmatched_string (s : string) (e : exception) :
  literal_eval (VStr s) = Raise e -> is_SyntaxError e = true ->
  (forall c w, call_caster c (VStr s) = Ret w -> truthy w = false) ->
  ((forall c e', call_caster c (VStr s) = Raise e' -> is_ValueError e' = true) ->
     eval_value_calls (VStr s) = (CASTERS, Ret (VStr s)) /\
     eval_value (VStr s) = Ret (VStr s)) /\
  (forall before c after e',
     CASTERS = before ++ c :: after ->
     (forall k e0, In k before -> call_caster k (VStr s) = Raise e0 ->
        is_ValueError e0 = true) ->
     call_caster c (VStr s) = Raise e' -> is_ValueError e' = false ->
     eval_value (VStr s) = Raise e').
Proof.
  intros H He Hfalse. split.
  - intros Hvalue. unfold eval_value.
    rewrite (eval_value_calls_syntax _ _ H He).
    rewrite for_caster_in_exhausted; [now split |].
    apply Forall_forall. intros k _.
    apply not_applicable_caster; [apply Hfalse | apply Hvalue].
  - intros before c after e' Hsplit Hbefore Hc He'. unfold eval_value.
    rewrite (eval_value_calls_syntax _ _ H He), Hsplit.
    rewrite for_caster_in_skip.
    + now rewrite (for_caster_in_raise _ after _ _ Hc He').
    + apply Forall_forall. intros k Hk.
      apply not_applicable_caster; [apply Hfalse |].
      intros e0. now apply Hbefore.
Qed.

(* ===================================================================== *)
(** ** The Assignment Parser *)
(* ===================================================================== *)

Lemma parse_kwarg_Assign (kwarg : string) (targets : list expr) (rhs : expr)
    (rest : list stmt) (flag : bool) :
  ast_parse kwarg = Ret (Assign targets rhs :: rest) ->
  parse_kwarg kwarg flag =
    try_except (parse_assign targets rhs flag) is_SyntaxError
      (fun _ => Raise (InvalidKwarg ("'" ++ kwarg ++ "' could not be parsed"))).
Proof. intros H. unfold parse_kwarg. now rewrite H. Qed.

Lemma parse_assign_fallback (target : expr) (targets : list expr) (rhs : expr)
    (e : exception) (flag : bool) :
  eval_value (VNode rhs) = Raise e -> is_ValueError e = true ->
  parse_assign (target :: targets) rhs flag =
    if flag then Raise e
    else id <- getattr_id target ;; Ret [(id, VStr (_get_expr_string rhs))].
Proof.
  intros H He. unfold parse_assign. simpl. rewrite H. simpl. now rewrite He.
Qed.

(** C1, on the code.  When the first target of the assignment is an
    attribute chain and [eval_value] raises a [ValueError] on the
    right-hand side, [parse_kwarg] with [raise_if_unparseable=False] returns
    no mapping: the handler reads [target.id], which an [ast.Attribute]
    node does not have, and the call ends in [AttributeError].  The key
    [_get_expr_string(target)] that the [try] body computed is not used. *)
Theorem parse_kwarg_fallback_attribute_target (kwarg : string)
    (value : expr) (attr : string) (targets : list expr) (rhs : expr)
    (rest : list stmt) (e : exception) :
  ast_parse kwarg = Ret (Assign (Attribute value attr :: targets) rhs :: rest) ->
  eval_value (VNode rhs) = Raise e -> is_ValueError e = true ->
  parse_kwarg kwarg false = Raise AttributeError.
Proof.
  intros Hp H He. rewrite (parse_kwarg_Assign _ _ _ _ _ Hp).
  now rewrite (parse_assign_fallback _ _ _ _ _ H He).
Qed.

(** C2, on the code.  When [eval_value] raises a [ValueError] on the
    right-hand side of the assignment: with [raise_if_unparseable=True] the
    exception reaches the caller; with [False] the result is the one-entry
    mapping from [target.id] to [_get_expr_string] of the right-hand side
    when the first target is a bare name, and [AttributeError] when it is
    any other node, an attribute chain included. *)
Theorem parse_kwarg_unparseable_value (kwarg : string) (target : expr)
    (targets : list expr) (rhs : expr) (rest : list stmt) (e : exception)
    (raise_if_unparseable : bool) :
  ast_parse kwarg = Ret (Assign (target :: targets) rhs :: rest) ->
  eval_value (VNode rhs) = Raise e -> is_ValueError e = true ->
  parse_kwarg kwarg raise_if_unparseable =
    if raise_if_unparseable then Raise e
    else match target with
         | Name id => Ret [(id, VStr (_get_expr_string rhs))]
         | _ => Raise AttributeError
         end.
Proof.
  intros Hp H He. rewrite (parse_kwarg_Assign _ _ _ _ _ Hp).
  rewrite (parse_assign_fallback _ _ _ _ _ H He).
  destruct raise_if_unparseable.
  - apply try_except_pass. now apply ValueError_not_SyntaxError.
  - now destruct target.
Qed.

(** The only inputs on which the flag changes the outcome are assignments
    whose right-hand side makes [eval_value] raise a [ValueError]. *)
Lemma parse_kwarg_flag_matters (kwarg : string) :
  parse_kwarg kwarg true <> parse_kwarg kwarg false ->
  exists targets rhs rest e,
    ast_parse kwarg = Ret (Assign targets rhs :: rest) /\
    eval_value (VNode rhs) = Raise e /\ is_ValueError e = true.
Proof.
  unfold parse_kwarg. destruct (ast_parse kwarg) as [tree | e] eqn:Hp;
    [| intros H; now elim H].
  destruct tree as [| first rest]; [intros H; now elim H |].
  destruct first as [? | targets rhs | ? ? | ? ? ? | ? |];
    try (intros H; now elim H).
  intros H. exists targets, rhs, rest.
  unfold parse_assign in H. simpl bind in H.
  destruct targets as [| target targets]; [now elim H |]. simpl in H.
  destruct (eval_value (VNode rhs)) as [v | e]; [now elim H |].
  exists e. simpl in H.
  destruct (is_ValueError e); [auto | now elim H].
Qed.

(** C8, as amended.  When [ast.parse] raises a [SyntaxError] on the text,
    [parse_kwarg] raises [InvalidKwarg] whatever [raise_if_unparseable] is;
    when [ast.parse] raises an exception of another class, [parse_kwarg]
    raises that exception, again whatever the flag is; and the flag changes
    the outcome of [parse_kwarg] only on an assignment whose right-hand
    side makes [eval_value] raise a [ValueError]. *)
Theorem parse_kwarg_syntax_error (kwarg : string) (e : exception) :
  ast_parse kwarg = Raise e ->
  (forall raise_if_unparseable,
     parse_kwarg kwarg raise_if_unparseable =
       if is_SyntaxError e
       then Raise (InvalidKwarg ("'" ++ kwarg ++ "' could not be parsed"))
       else Raise e) /\
  (forall text, parse_kwarg text true <> parse_kwarg text false ->
     exists targets rhs rest e',
       ast_parse text = Ret (Assign targets rhs :: rest) /\
       eval_value (VNode rhs) = Raise e' /\ is_ValueError e' = true).
Proof.
  intros Hp. split.
  - intros flag. unfold parse_kwarg. rewrite Hp. simpl.
    now destruct (is_SyntaxError e).
  - exact parse_kwarg_flag_matters.
Qed.

(* ===================================================================== *)
(** ** The Call Expression Parser *)
(* ===================================================================== *)

Lemma parse_call_method_name_eq (call_method_name : string) :
  parse_call_method_name call_method_name =
    (body <- ast_parse (callee_source call_method_name) ;;
     parts <- call_parts (callee_source call_method_name) body ;;
     let '(method_name, args, kwargs) := parts in
     Ret (if startswith_dollar call_method_name
          then String "$" method_name else method_name, args, kwargs)).
Proof. reflexivity. Qed.

Lemma startswith_dollar_String (c : ascii) (rest : string) :
  startswith_dollar (String c rest) = true -> c = "$"%char.
Proof. simpl. apply Ascii.eqb_eq. Qed.

Lemma callee_source_nonempty (call_method_name : string) :
  call_method_name <> "" -> startswith_dollar call_method_name = false ->
  callee_source call_method_name <> "".
Proof. intros Hne Hd. unfold callee_source. now rewrite Hd. Qed.

(** The method name of a parsed call: the callee's [id] when the body
    starts with a call statement, the parsed text otherwise. *)
Lemma call_parts_method_name (source : string) (body : list stmt)
    (method_name : string) (args : list object) (kwargs : dict (option string)) :
  call_parts source body = Ret (method_name, args, kwargs) ->
  method_name = source \/
  exists first rest cargs keywords,
    body = first :: rest /\
    getattr_value first = Ret (Some (Call (Name method_name) cargs keywords)).
Proof.
  unfold call_parts. destruct body as [| first rest]; [intros [= <- _ _]; auto |].
  destruct (getattr_value first) as [[value |] | e] eqn:Hv; simpl;
    try discriminate; try (intros [= <- _ _]; now left).
  destruct value as [| | | func cargs keywords | | | | |];
    try (intros [= <- _ _]; now left).
  destruct func as [id | | | | | | | |]; simpl; try discriminate.
  destruct (eval_args cargs); simpl; [| discriminate].
  destruct (eval_keywords keywords []); simpl; [| discriminate].
  intros [= <- _ _]. right. now exists first, rest, cargs, keywords.
Qed.

(** C5, as amended.  With a parser that yields no empty identifier, as
    Python's does, every input other than the empty string that
    [parse_call_method_name] accepts comes back with a method name that is
    not empty. *)
Theorem method_name_nonempty (call_method_name method_name : string)
    (args : list object) (kwargs : dict (option string)) :
  (forall source body,
     ast_parse source = Ret body -> callee_id_nonempty body = true) ->
  call_method_name <> "" ->
  parse_call_method_name call_method_name = Ret (method_name, args, kwargs) ->
  method_name <> "".
Proof.
  intros Hids Hne. rewrite parse_call_method_name_eq.
  destruct (ast_parse (callee_source call_method_name)) as [body | e] eqn:Hp;
    simpl; [| discriminate].
  destruct (call_parts _ body) as [[[name args0] kwargs0] | e] eqn:Hparts;
    simpl; [| discriminate].
  destruct (startswith_dollar call_method_name) eqn:Hd; intros [= <- _ _];
    [discriminate |].
  destruct (call_parts_method_name _ _ _ _ _ Hparts)
    as [-> | (first & rest & cargs & keywords & -> & Hv)].
  - now apply callee_source_nonempty.
  - specialize (Hids _ _ Hp). simpl in Hids. rewrite Hv in Hids.
    intros ->. discriminate.
Qed.

(** C6.  When the input starts with [$] and [parse_call_method_name]
    accepts it, the text after the [$] is what is parsed, and the result is
    that parse with [$] put back in front of the method name; for a call of
    a bare name without arguments it is [$name] with no positional and no
    keyword arguments. *)
Theorem dollar_prefix_kept (rest : string) (r : parsed_call) :
  parse_call_method_name (String "$" rest) = Ret r ->
  (exists body name args kwargs,
     ast_parse rest = Ret body /\
     call_parts rest body = Ret (name, args, kwargs) /\
     r = (String "$" name, args, kwargs)) /\
  (forall name others,
     ast_parse rest = Ret (Expr (Call (Name name) [] []) :: others) ->
     r = (String "$" name, [], [])).
Proof.
  rewrite parse_call_method_name_eq. unfold callee_source. simpl.
  destruct (ast_parse rest) as [body | e] eqn:Hp; simpl; [| discriminate].
  destruct (call_parts rest body) as [[[name args] kwargs] | e] eqn:Hparts;
    simpl; [| discriminate].
  intros [= <-]. split.
  - now exists body, name, args, kwargs.
  - intros name' others [= ->]. simpl in Hparts. now injection Hparts as <- <- <-.
Qed.

(** C9.  When the parsed text starts with a statement whose value is a
    call and the callee is not a bare name, [parse_call_method_name] raises
    [AttributeError]: [call.func.id] is read on a node that has no [id]. *)
Theorem call_with_non_name_callee_raises (call_method_name : string)
    (first : stmt) (rest : list stmt) (func : expr) (args : list expr)
    (keywords : list keyword) :
  ast_parse (callee_source call_method_name) = Ret (first :: rest) ->
  getattr_value first = Ret (Some (Call func args keywords)) ->
  is_Name func = false ->
  parse_call_method_name call_method_name = Raise AttributeError.
Proof.
  intros Hp Hv Hf. rewrite parse_call_method_name_eq. rewrite Hp. simpl.
  rewrite Hv. simpl. destruct func; simpl in *; (discriminate || reflexivity).
Qed.

(** Each element of [args] is [eval_value] of the node at the same
    position. *)
Lemma eval_args_nth (cargs : list expr) (args : list object) :
  eval_args cargs = Ret args ->
  forall i arg, nth_error cargs i = Some arg ->
    exists v, eval_value (VNode arg) = Ret v /\ nth_error args i = Some v.
Proof.
  revert args. induction cargs as [| a cargs IH]; simpl; intros args H i arg Hi.
  - now destruct i.
  - destruct (eval_value (VNode a)) as [v |] eqn:Ha; simpl in H; [| discriminate].
    destruct (eval_args cargs) as [vs |]; simpl in H; [| discriminate].
    injection H as <-. destruct i as [| i]; simpl in *.
    + injection Hi as <-. eauto.
    + now apply IH.
Qed.

Lemma eval_keywords_app (before after : list keyword) (d0 d : dict (option string)) :
  eval_keywords (before ++ after) d0 = Ret d ->
  exists d1, eval_keywords before d0 = Ret d1 /\ eval_keywords after d1 = Ret d.
Proof.
  revert d0. induction before as [| [arg value] before IH]; simpl; intros d0 H.
  - eauto.
  - destruct (eval_value (VNode value)) as [v |]; simpl in *; [| discriminate].
    now apply IH.
Qed.

(** Keywords with other names leave the entry of [k] as it was. *)
Lemma eval_keywords_other (keywords : list keyword) (k : option string)
    (d0 d : dict (option string)) :
  Forall (fun kw => arg_eqb (keyword_arg kw) k = false) keywords ->
  eval_keywords keywords d0 = Ret d ->
  dict_get arg_eqb d k = dict_get arg_eqb d0 k.
Proof.
  intros Hall. revert d0.
  induction Hall as [| [arg value] keywords Hkw _ IH]; simpl; intros d0 H.
  - now injection H as <-.
  - destruct (eval_value (VNode value)) as [v |]; simpl in H; [| discriminate].
    rewrite (IH _ H). now apply dict_get_set_other.
Qed.

(** C10.  Let [ast.literal_eval] return the payload of a [Constant] node,
    as CPython's does.  In an accepted call, a positional argument that is
    a string literal comes back as that string at the same position, and a
    keyword argument that is a string literal comes back as that string
    under its name (for a repeated name, the last one); [eval_value] gets
    the parsed node, [ast.literal_eval] returns, and no caster is called,
    whatever the string looks like. *)
Theorem string_literal_arguments_stay_strings (call_method_name : string)
    (first : stmt) (rest : list stmt) (func : expr) (cargs : list expr)
    (keywords : list keyword) (method_name : string) (args : list object)
    (kwargs : dict (option string)) :
  (forall c, literal_eval (VNode (Constant c)) = Ret (VConst c)) ->
  ast_parse (callee_source call_method_name) = Ret (first :: rest) ->
  getattr_value first = Ret (Some (Call func cargs keywords)) ->
  parse_call_method_name call_method_name = Ret (method_name, args, kwargs) ->
  (forall i s, nth_error cargs i = Some (Constant (CStr s)) ->
     nth_error args i = Some (VStr s)) /\
  (forall before arg s after,
     keywords = before ++ Keyword arg (Constant (CStr s)) :: after ->
     Forall (fun kw => arg_eqb (keyword_arg kw) arg = false) after ->
     dict_get arg_eqb kwargs arg = Some (VStr s)) /\
  (forall s, eval_value_calls (VNode (Constant (CStr s))) = ([], Ret (VStr s))).
Proof.
  intros Hconst Hp Hv. rewrite parse_call_method_name_eq. rewrite Hp. simpl.
  rewrite Hv. simpl.
  destruct (getattr_id func) as [id |]; simpl; [| discriminate].
  destruct (eval_args cargs) as [args0 |] eqn:Hargs; simpl; [| discriminate].
  destruct (eval_keywords keywords []) as [kwargs0 |] eqn:Hkw; simpl;
    [| discriminate].
  intros [= _ <- <-].
  assert (Hlit : forall s, eval_value_calls (VNode (Constant (CStr s)))
                           = ([], Ret (VStr s))).
  { intros s. apply eval_value_calls_Ret, Hconst. }
  split; [| split].
  - intros i s Hi. destruct (eval_args_nth _ _ Hargs _ _ Hi) as (v & Hev & Hn).
    unfold eval_value in Hev. rewrite Hlit in Hev. simpl in Hev.
    now injection Hev as <-.
  - intros before arg s after -> Hafter.
    apply eval_keywords_app in Hkw. destruct Hkw as (d1 & _ & Hrest).
    simpl in Hrest. unfold eval_value in Hrest. rewrite Hlit in Hrest.
    simpl in Hrest. rewrite (eval_keywords_other _ _ _ _ Hafter Hrest).
    apply dict_get_set_same.
  - exact Hlit.
Qed.

(* ===================================================================== *)
(** ** Further properties of [eval_value] *)
(* ===================================================================== *)

Lemma for_caster_in_prefix (casters : list caster) (value : object) :
  exists rest, casters = fst (for_caster_in casters value) ++ rest.
Proof.
  induction casters as [| c casters [rest IH]]; simpl.
  - now exists [].
  - destruct (call_caster c value) as [w | e].
    + destruct (truthy w); simpl; [now exists casters |].
      destruct (for_caster_in casters value); simpl in *.
      exists rest. now rewrite IH at 1.
    + destruct (is_ValueError e); simpl; [| now exists casters].
      destruct (for_caster_in casters value); simpl in *.
      exists rest. now rewrite IH at 1.
Qed.

Lemma for_caster_in_Ret (casters : list caster) (value r : object) :
  snd (for_caster_in casters value) = Ret r ->
  r = value \/
  exists c, In c casters /\ call_caster c value = Ret r /\ truthy r = true.
Proof.
  induction casters as [| c casters IH]; simpl.
  - intros [= <-]. now left.
  - destruct (call_caster c value) as [w | e] eqn:Hc.
    + destruct (truthy w) eqn:Hw; simpl.
      * intros [= <-]. right. eauto.
      * destruct (for_caster_in casters value); simpl in *. intros Hr.
        destruct (IH Hr) as [-> | (k & Hk & Hkr)]; [now left | right; eauto].
    + destruct (is_ValueError e); simpl; [| discriminate].
      destruct (for_caster_in casters value); simpl in *. intros Hr.
      destruct (IH Hr) as [-> | (k & Hk & Hkr)]; [now left | right; eauto].
Qed.

(** X3.  An object returned by [eval_value] is the result of
    [ast.literal_eval], or, after a [SyntaxError], the argument itself or a
    true object returned by one of the casters: a false caster result
    ([None], a zero [timedelta]) is never returned. *)
Theorem eval_value_Ret_origin (value r : object) :
  eval_value value = Ret r ->
  literal_eval value = Ret r \/
  exists e, literal_eval value = Raise e /\ is_SyntaxError e = true /\
    (r = value \/
     exists c, In c CASTERS /\ call_caster c value = Ret r /\ truthy r = true).
Proof.
  unfold eval_value.
  destruct (literal_eval value) as [v | e] eqn:H.
  - rewrite (eval_value_calls_Ret _ _ H). intros [= <-]. now left.
  - destruct (is_SyntaxError e) eqn:He.
    + rewrite (eval_value_calls_syntax _ _ H He). intros Hr. right.
      exists e. repeat split; trivial. now apply for_caster_in_Ret.
    + now rewrite (eval_value_calls_other _ _ H He).
Qed.

(** X4.  An exception raised by [eval_value] is either the exception of
    [ast.literal_eval], which is then no [SyntaxError], or an exception of
    a caster called after a [SyntaxError], which is then no [ValueError]. *)
Theorem eval_value_Raise_origin (value : object) (e : exception) :
  eval_value value = Raise e ->
  (literal_eval value = Raise e /\ is_SyntaxError e = false) \/
  (exists e0 c, literal_eval value = Raise e0 /\ is_SyntaxError e0 = true /\
     In c CASTERS /\ call_caster c value = Raise e /\ is_ValueError e = false).
Proof.
  unfold eval_value.
  destruct (literal_eval value) as [v | e0] eqn:H.
  - now rewrite (eval_value_calls_Ret _ _ H).
  - destruct (is_SyntaxError e0) eqn:He0.
    + rewrite (eval_value_calls_syntax _ _ H He0). intros Hr. right.
      apply for_caster_in_Raise in Hr.
      destruct Hr as (c & Hc & Hce & Hne). now exists e0, c.
    + rewrite (eval_value_calls_other _ _ H He0). intros [= <-]. now left.
Qed.

(** X5.  Whatever the argument, the casters that [eval_value] calls are an
    initial segment of [CASTERS], each called once and in the order of the
    list. *)
Theorem eval_value_calls_prefix (value : object) :
  exists rest, CASTERS = fst (eval_value_calls value) ++ rest.
Proof.
  destruct (literal_eval value) as [v | e] eqn:H.
  - rewrite (eval_value_calls_Ret _ _ H). now exists CASTERS.
  - destruct (is_SyntaxError e) eqn:He.
    + rewrite (eval_value_calls_syntax _ _ H He). apply for_caster_in_prefix.
    + rewrite (eval_value_calls_other _ _ H He). now exists CASTERS.
Qed.

(* ===================================================================== *)
(** ** Further properties of [parse_kwarg] *)
(* ===================================================================== *)

Lemma parse_assign_value (target : expr) (targets : list expr) (rhs : expr)
    (v : object) (flag : bool) :
  eval_value (VNode rhs) = Ret v ->
  parse_assign (target :: targets) rhs flag = Ret [(_get_expr_string target, v)].
Proof. intros H. unfold parse_assign. simpl. now rewrite H. Qed.

(** X6.  When the target of the assignment is a name followed by attribute
    accesses and [eval_value] returns an object for the right-hand side,
    [parse_kwarg] returns the one-entry mapping from the dotted target to
    that object, whatever [raise_if_unparseable] is. *)
Theorem parse_kwarg_dotted_key (kwarg id : string) (attrs : list string)
    (targets : list expr) (rhs : expr) (rest : list stmt) (v : object)
    (raise_if_unparseable : bool) :
  ast_parse kwarg
    = Ret (Assign (attribute_chain (Name id) attrs :: targets) rhs :: rest) ->
  Forall (fun attr => attr <> "") attrs ->
  eval_value (VNode rhs) = Ret v ->
  parse_kwarg kwarg raise_if_unparseable
    = Ret [(String.concat "." (id :: attrs), v)].
Proof.
  intros Hp Hattrs Hv. rewrite (parse_kwarg_Assign _ _ _ _ _ Hp).
  rewrite (parse_assign_value _ _ _ _ _ Hv).
  now rewrite (get_expr_string_Name_chain _ _ Hattrs).
Qed.

(** X7.  A target that is neither a name nor an attribute (a subscript, a
    tuple) is not rejected: when [eval_value] returns an object for the
    right-hand side, [parse_kwarg] returns the mapping from the empty
    string to that object. *)
Theorem parse_kwarg_other_target_empty_key (kwarg : string) (target : expr)
    (targets : list expr) (rhs : expr) (rest : list stmt) (v : object)
    (raise_if_unparseable : bool) :
  ast_parse kwarg = Ret (Assign (target :: targets) rhs :: rest) ->
  is_Name target = false -> is_Attribute target = false ->
  eval_value (VNode rhs) = Ret v ->
  parse_kwarg kwarg raise_if_unparseable = Ret [("", v)].
Proof.
  intros Hp Hname Hattr Hv. rewrite (parse_kwarg_Assign _ _ _ _ _ Hp).
  rewrite (parse_assign_value _ _ _ _ _ Hv).
  destruct target; simpl in *; (discriminate || reflexivity).
Qed.

(** X8.  A text that parses, but not to a module that starts with an
    assignment (the empty text and a bare expression included), makes
    [parse_kwarg] raise [InvalidKwarg] with the message that the text is
    invalid, whatever [raise_if_unparseable] is. *)
Theorem parse_kwarg_not_assignment (kwarg : string) (body : list stmt)
    (raise_if_unparseable : bool) :
  ast_parse kwarg = Ret body -> leading_Assign body = false ->
  parse_kwarg kwarg raise_if_unparseable
    = Raise (InvalidKwarg ("'" ++ kwarg ++ "' is invalid")).
Proof.
  intros Hp Hbody. unfold parse_kwarg. rewrite Hp. simpl.
  destruct body as [| first rest]; [reflexivity |].
  destruct first; simpl in *; (discriminate || reflexivity).
Qed.

(** X9.  [parse_kwarg] never raises a [SyntaxError]: one raised by the
    parser, or anywhere else inside the outer [try], comes out as
    [InvalidKwarg]. *)
Theorem parse_kwarg_no_SyntaxError (kwarg : string)
    (raise_if_unparseable : bool) (e : exception) :
  parse_kwarg kwarg raise_if_unparseable = Raise e -> is_SyntaxError e = false.
Proof.
  unfold parse_kwarg, try_except.
  match goal with |- match ?body with _ => _ end = _ -> _ =>
    destruct body as [d | e0] end; [discriminate |].
  destruct (is_SyntaxError e0) eqn:He0; intros [= <-]; [reflexivity | exact He0].
Qed.

(** X10.  With the default flag, a bare-name target and a right-hand side
    that is a name followed by attribute accesses, on which [eval_value]
    raises a [ValueError], [parse_kwarg] returns the mapping from the
    target to the dotted right-hand side as a [str]. *)
Theorem parse_kwarg_deferred_dotted_value (kwarg id base : string)
    (attrs : list string) (targets : list expr) (rest : list stmt)
    (e : exception) :
  ast_parse kwarg
    = Ret (Assign (Name id :: targets) (attribute_chain (Name base) attrs)
             :: rest) ->
  Forall (fun attr => attr <> "") attrs ->
  eval_value (VNode (attribute_chain (Name base) attrs)) = Raise e ->
  is_ValueError e = true ->
  parse_kwarg kwarg false
    = Ret [(id, VStr (String.concat "." (base :: attrs)))].
Proof.
  intros Hp Hattrs Hv He. rewrite (parse_kwarg_Assign _ _ _ _ _ Hp).
  rewrite (parse_assign_fallback _ _ _ _ _ Hv He). simpl.
  now rewrite (get_expr_string_Name_chain _ _ Hattrs).
Qed.

(* ===================================================================== *)
(** ** Further properties of [parse_call_method_name] *)
(* ===================================================================== *)

Lemma parse_call_method_name_Call (call_method_name : string) (first : stmt)
    (rest : list stmt) (func : expr) (cargs : list expr)
    (keywords : list keyword) :
  ast_parse (callee_source call_method_name) = Ret (first :: rest) ->
  getattr_value first = Ret (Some (Call func cargs keywords)) ->
  parse_call_method_name call_method_name =
    (id <- getattr_id func ;;
     args <- eval_args cargs ;;
     kwargs <- eval_keywords keywords [] ;;
     Ret (if startswith_dollar call_method_name then String "$" id else id,
          args, kwargs)).
Proof.
  intros Hp Hv. rewrite parse_call_method_name_eq. rewrite Hp. simpl.
  rewrite Hv. simpl.
  destruct (getattr_id func); simpl; [| reflexivity].
  destruct (eval_args cargs); simpl; [| reflexivity].
  now destruct (eval_keywords keywords []).
Qed.

Lemma eval_args_Forall2 (cargs : list expr) (args : list object) :
  eval_args cargs = Ret args ->
  Forall2 (fun arg v => eval_value (VNode arg) = Ret v) cargs args.
Proof.
  revert args. induction cargs as [| a cargs IH]; simpl; intros args H.
  - injection H as <-. constructor.
  - destruct (eval_value (VNode a)) as [v |] eqn:Ha; simpl in H; [| discriminate].
    destruct (eval_args cargs) as [vs |]; simpl in H; [| discriminate].
    injection H as <-. constructor; auto.
Qed.

Lemma eval_args_Raise (before after : list expr) (arg : expr) (e : exception) :
  Forall (fun b => exists v, eval_value (VNode b) = Ret v) before ->
  eval_value (VNode arg) = Raise e ->
  eval_args (before ++ arg :: after) = Raise e.
Proof.
  intros Hbefore Harg. induction Hbefore as [| b before [v Hb] _ IH]; simpl.
  - now rewrite Harg.
  - rewrite Hb. simpl. now rewrite IH.
Qed.

Lemma eval_keywords_keys (keywords : list keyword) (d0 d : dict (option string)) :
  eval_keywords keywords d0 = Ret d -> NoDup (keys d0) ->
  NoDup (keys d) /\
  forall k, In k (keys d) <-> In k (keys d0) \/ In k (map keyword_arg keywords).
Proof.
  revert d0. induction keywords as [| [arg value] keywords IH]; simpl;
    intros d0 H Hd0.
  - injection H as <-. split; [exact Hd0 | tauto].
  - destruct (eval_value (VNode value)) as [v |]; simpl in H; [| discriminate].
    destruct (IH _ H (NoDup_dict_set _ arg v Hd0)) as [Hnodup Hkeys].
    split; [exact Hnodup |]. intros k. rewrite Hkeys, keys_dict_set.
    intuition congruence.
Qed.

(** X11.  When the parsed text does not start with a statement whose value
    is a call, the result is the text as it was given, [$] included, with
    no positional and no keyword arguments. *)
Theorem parse_call_not_a_call (call_method_name : string) (body : list stmt) :
  ast_parse (callee_source call_method_name) = Ret body ->
  (body = [] \/
   exists first rest value,
     body = first :: rest /\ getattr_value first = Ret value /\
     is_Call value = false) ->
  parse_call_method_name call_method_name = Ret (call_method_name, [], []).
Proof.
  intros Hp Hbody. rewrite parse_call_method_name_eq. rewrite Hp. simpl.
  assert (Hparts : call_parts (callee_source call_method_name) body
                   = Ret (callee_source call_method_name, [], [])).
  { destruct Hbody as [-> | (first & rest & value & -> & Hv & Hcall)];
      [reflexivity |].
    simpl. rewrite Hv. simpl.
    destruct value as [[] |]; simpl in *; (discriminate || reflexivity). }
  rewrite Hparts. simpl. unfold callee_source.
  destruct (startswith_dollar call_method_name) eqn:Hd; [| reflexivity].
  now rewrite (dollar_round_trip _ Hd).
Qed.

(** X12.  When the parsed text starts with a statement of a class that has
    no [value] field ([pass], [import], [if], ...),
    [parse_call_method_name] raises [AttributeError]. *)
Theorem parse_call_statement_without_value (call_method_name : string)
    (rest : list stmt) :
  ast_parse (callee_source call_method_name) = Ret (OtherStmt :: rest) ->
  parse_call_method_name call_method_name = Raise AttributeError.
Proof.
  intros Hp. rewrite parse_call_method_name_eq. now rewrite Hp.
Qed.

(** X13.  In a call of a bare name, the first positional argument on which
    [eval_value] raises decides the outcome: [parse_call_method_name]
    raises that exception (a name as argument gives the [ValueError] of
    [ast.literal_eval]); nothing is recovered as in [parse_kwarg]. *)
Theorem parse_call_argument_error (call_method_name : string) (first : stmt)
    (rest : list stmt) (id : string) (before after : list expr) (arg : expr)
    (keywords : list keyword) (e : exception) :
  ast_parse (callee_source call_method_name) = Ret (first :: rest) ->
  getattr_value first
    = Ret (Some (Call (Name id) (before ++ arg :: after) keywords)) ->
  Forall (fun b => exists v, eval_value (VNode b) = Ret v) before ->
  eval_value (VNode arg) = Raise e ->
  parse_call_method_name call_method_name = Raise e.
Proof.
  intros Hp Hv Hbefore Harg.
  rewrite (parse_call_method_name_Call _ _ _ _ _ _ Hp Hv). simpl.
  now rewrite (eval_args_Raise _ _ _ _ Hbefore Harg).
Qed.

(** X14.  In an accepted call, the positional arguments of the result are
    as many as in the call and each one is [eval_value] of the argument at
    the same position; the callee is a bare name, and the method name is
    that name, with [$] in front when the input started with it. *)
Theorem parse_call_positional (call_method_name : string) (first : stmt)
    (rest : list stmt) (func : expr) (cargs : list expr)
    (keywords : list keyword) (method_name : string) (args : list object)
    (kwargs : dict (option string)) :
  ast_parse (callee_source call_method_name) = Ret (first :: rest) ->
  getattr_value first = Ret (Some (Call func cargs keywords)) ->
  parse_call_method_name call_method_name = Ret (method_name, args, kwargs) ->
  Forall2 (fun arg v => eval_value (VNode arg) = Ret v) cargs args /\
  exists id, func = Name id /\
    method_name
      = if startswith_dollar call_method_name then String "$" id else id.
Proof.
  intros Hp Hv. rewrite (parse_call_method_name_Call _ _ _ _ _ _ Hp Hv).
  destruct func as [id | | | | | | | |]; simpl; try discriminate.
  destruct (eval_args cargs) as [args0 |] eqn:Hargs; simpl; [| discriminate].
  destruct (eval_keywords keywords []); simpl; [| discriminate].
  intros [= <- <- _]. split; [now apply eval_args_Forall2 | now exists id].
Qed.

(** X15.  In an accepted call, the keys of the keyword mapping are the
    names of the keyword arguments, each once, and the object under a name
    is [eval_value] of the last keyword argument with that name. *)
Theorem parse_call_keywords (call_method_name : string) (first : stmt)
    (rest : list stmt) (func : expr) (cargs : list expr)
    (keywords : list keyword) (method_name : string) (args : list object)
    (kwargs : dict (option string)) :
  ast_parse (callee_source call_method_name) = Ret (first :: rest) ->
  getattr_value first = Ret (Some (Call func cargs keywords)) ->
  parse_call_method_name call_method_name = Ret (method_name, args, kwargs) ->
  NoDup (keys kwargs) /\
  (forall k, In k (keys kwargs) <-> In k (map keyword_arg keywords)) /\
  (forall before arg value after,
     keywords = before ++ Keyword arg value :: after ->
     Forall (fun kw => arg_eqb (keyword_arg kw) arg = false) after ->
     exists v, eval_value (VNode value) = Ret v /\
               dict_get arg_eqb kwargs arg = Some v).
Proof.
  intros Hp Hv. rewrite (parse_call_method_name_Call _ _ _ _ _ _ Hp Hv).
  destruct (getattr_id func); simpl; [| discriminate].
  destruct (eval_args cargs); simpl; [| discriminate].
  destruct (eval_keywords keywords []) as [kwargs0 |] eqn:Hkw; simpl;
    [| discriminate].
  intros [= _ _ <-].
  destruct (eval_keywords_keys _ _ _ Hkw (NoDup_nil _)) as [Hnodup Hkeys].
  split; [exact Hnodup | split].
  - intros k. rewrite Hkeys. simpl. tauto.
  - intros before arg value after -> Hafter.
    apply eval_keywords_app in Hkw. destruct Hkw as (d1 & _ & Hrest).
    simpl in Hrest.
    destruct (eval_value (VNode value)) as [v |]; simpl in Hrest;
      [| discriminate].
    exists v. split; [reflexivity |].
    rewrite (eval_keywords_other _ _ _ _ Hafter Hrest).
    apply dict_get_set_same.
Qed.

End Properties.

(* ===================================================================== *)
(** ** The statements on the sample runtime *)
(* ===================================================================== *)

(** No source of the sample table has an empty callee. *)
Lemma sample_ids_nonempty (source : string) (body : list stmt) :
  ast_parse (Runtime := Sample.runtime) source = Ret body ->
  callee_id_nonempty body = true.
Proof.
  unfold ast_parse, Sample.runtime, Sample.sources. cbn [Sample.lookup].
  repeat match goal with
         | |- context [if ?b then _ else _] =>
             destruct b; [intros [= <-]; reflexivity |]
         end.
  discriminate.
Qed.

Lemma sample_literal_eval_Constant (c : constant) :
  literal_eval (Runtime := Sample.runtime) (VNode (Constant c)) = Ret (VConst c).
Proof. reflexivity. Qed.

#[local] Existing Instance Sample.runtime.

(** [parse_kwarg("a.b.c=foo")]: the right-hand side is a name, so
    [ast.literal_eval] raises [ValueError]; the target is an attribute
    chain, and the call ends in [AttributeError]. *)
Lemma parse_kwarg_fallback_attribute_target_witness :
  ast_parse "a.b.c=foo"
    = Ret [Assign [Attribute (Attribute (Name "a") "b") "c"] (Name "foo")] /\
  eval_value (VNode (Name "foo")) = Raise ValueError /\
  parse_kwarg "a.b.c=foo" false = Raise AttributeError.
Proof.
  split; [reflexivity | split; [reflexivity |]].
  apply (parse_kwarg_fallback_attribute_target "a.b.c=foo"
           (Attribute (Name "a") "b") "c" [] (Name "foo") [] ValueError);
    reflexivity.
Defined.

(** [parse_kwarg("a.b=foo")] with the default flag. *)
Lemma parse_kwarg_unparseable_value_witness :
  eval_value (VNode (Name "foo")) = Raise ValueError /\
  parse_kwarg "a.b=foo" false = Raise AttributeError.
Proof.
  split; [reflexivity |].
  apply (parse_kwarg_unparseable_value "a.b=foo" (Attribute (Name "a") "b")
           [] (Name "foo") [] ValueError false);
    reflexivity.
Defined.

(** The same handler with a bare name as target:
    [parse_kwarg("x=some_undefined_name")]. *)
Example parse_kwarg_deferred_name :
  parse_kwarg "x=some_undefined_name" false
    = Ret [("x", VStr "some_undefined_name")] /\
  parse_kwarg "x=some_undefined_name" true = Raise ValueError.
Proof. split; reflexivity. Qed.

Example parse_kwarg_literal :
  parse_kwarg "x=1" false = Ret [("x", VConst (CInt 1))].
Proof. reflexivity. Qed.

(** ["hello world"] is not an expression and no caster accepts it. *)
Lemma eval_value_failure_split_witness :
  literal_eval (VStr "hello world") = Raise SyntaxError /\
  eval_value_calls (VStr "hello world")
    = for_caster_in CASTERS (VStr "hello world") /\
  exists v, eval_value (VStr "hello world") = Ret v.
Proof.
  split; [reflexivity |].
  destruct (eval_value_failure_split (VStr "hello world") SyntaxError)
    as [Hsyntax _]; [reflexivity |].
  destruct Hsyntax as (Hcalls & _ & Hret & _); [reflexivity |].
  split; [exact Hcalls |]. apply Hret.
  intros c e'. destruct c; simpl; intros [= <-]; reflexivity.
Defined.

(** C3, counterexample.  ["999999999999 00:00:00"] is not an expression, so
    [ast.literal_eval] raises [SyntaxError].  It is a duration of
    999999999999 days for [parse_duration], which is more than a
    [timedelta] holds: the caster raises [OverflowError], and so does
    [eval_value]. *)
Lemma eval_value_syntax_failure_raises :
  literal_eval (VStr "999999999999 00:00:00") = Raise SyntaxError /\
  eval_value (VStr "999999999999 00:00:00") = Raise OverflowError.
Proof. split; reflexivity. Qed.

(** ["2020-01-01T00:00:00"] is taken by the first caster. *)
Lemma casters_first_match_in_order_witness :
  literal_eval (VStr "2020-01-01T00:00:00") = Raise SyntaxError /\
  eval_value_calls (VStr "2020-01-01T00:00:00")
    = ([ParseDatetime],
       Ret (VDatetime (MkDate 2020 1 1) (MkTime 0 0 0 0 None))).
Proof.
  split; [reflexivity |].
  destruct (casters_first_match_in_order (VStr "2020-01-01T00:00:00")
              SyntaxError) as (_ & Hfirst & _); [reflexivity | reflexivity |].
  destruct (Hfirst [] ParseDatetime [ParseTime; ParseDate; ParseDuration; Uuid])
    as [Hmatch _]; [reflexivity | constructor |].
  apply Hmatch; reflexivity.
Defined.

(** A zero duration is a false object: the duration caster is passed over
    and the string comes back. *)
Example eval_value_zero_duration :
  eval_value_calls (VStr "0 00:00:00") = (CASTERS, Ret (VStr "0 00:00:00")).
Proof. reflexivity. Qed.

(** C4, counterexample.  On ["1000000000 00:00:00"] the first three
    casters return [None] and [parse_duration] raises [OverflowError].  The
    loop does not go on to the UUID caster, which would raise a
    [ValueError] and leave the string as the result: [eval_value] raises
    [OverflowError] after four calls. *)
Lemma caster_exception_ends_loop :
  literal_eval (VStr "1000000000 00:00:00") = Raise SyntaxError /\
  call_caster ParseDuration (VStr "1000000000 00:00:00") = Raise OverflowError /\
  call_caster Uuid (VStr "1000000000 00:00:00") = Raise ValueError /\
  eval_value_calls (VStr "1000000000 00:00:00")
    = ([ParseDatetime; ParseTime; ParseDate; ParseDuration],
       Raise OverflowError).
Proof. repeat split; reflexivity. Qed.

Lemma eval_value_unmatched_string_witness :
  literal_eval (VStr "hello world") = Raise SyntaxError /\
  eval_value (VStr "hello world") = Ret (VStr "hello world").
Proof.
  split; [reflexivity |].
  destruct (eval_value_unmatched_string "hello world" SyntaxError)
    as [Hreturns _]; [reflexivity | reflexivity | |].
  - intros c w. destruct c; simpl; intros [= <-]; reflexivity.
  - apply Hreturns. intros c e'. destruct c; simpl; intros [= <-]; reflexivity.
Defined.

(** C7, counterexample.  On ["999999999999 00:00:00"] [ast.literal_eval]
    raises [SyntaxError] and no caster returns a true object: three return
    [None], [parse_duration] raises [OverflowError] and the UUID caster
    would raise [ValueError].  The string does not come back: [eval_value]
    raises [OverflowError]. *)
Lemma unmatched_string_not_returned :
  literal_eval (VStr "999999999999 00:00:00") = Raise SyntaxError /\
  (forall c w, call_caster c (VStr "999999999999 00:00:00") = Ret w ->
     truthy w = false) /\
  eval_value (VStr "999999999999 00:00:00") = Raise OverflowError /\
  eval_value (VStr "999999999999 00:00:00")
    <> Ret (VStr "999999999999 00:00:00").
Proof.
  split; [reflexivity | split; [| split; [reflexivity | discriminate]]].
  intros c w. destruct c; simpl; intros [= <-]; reflexivity.
Qed.

Example eval_value_literals :
  eval_value (VStr "123") = Ret (VConst (CInt 123)) /\
  eval_value (VStr "'a'") = Ret (VStr "a") /\
  eval_value (VStr "some_undefined_name") = Raise ValueError.
Proof. repeat split; reflexivity. Qed.

Lemma parse_kwarg_syntax_error_witness :
  ast_parse "not an assignment" = Raise SyntaxError /\
  parse_kwarg "not an assignment" false
    = Raise (InvalidKwarg "'not an assignment' could not be parsed") /\
  parse_kwarg "not an assignment" true
    = Raise (InvalidKwarg "'not an assignment' could not be parsed").
Proof.
  split; [reflexivity |].
  destruct (parse_kwarg_syntax_error "not an assignment" SyntaxError)
    as [Hflag _]; [reflexivity |].
  split; apply Hflag.
Defined.

(** C8, counterexample.  A text with a null byte is not parseable as a
    statement, and [ast.parse] refuses it with [ValueError], which
    [except SyntaxError] does not catch: [parse_kwarg] raises [ValueError],
    not [InvalidKwarg], for both values of the flag. *)
Lemma parse_kwarg_null_byte :
  ast_parse (Runtime := Extra.runtime) Extra.nul_assignment = Raise ValueError /\
  parse_kwarg (rt := Extra.runtime) Extra.nul_assignment false = Raise ValueError /\
  parse_kwarg (rt := Extra.runtime) Extra.nul_assignment true = Raise ValueError.
Proof. repeat split; reflexivity. Qed.

(** C5, counterexample.  The empty string parses to a module without
    statements, so the text itself, the empty string, is the method
    name. *)
Lemma empty_call_method_name :
  ast_parse "" = Ret [] /\
  parse_call_method_name "" = Ret ("", [], []).
Proof. split; reflexivity. Qed.

Lemma method_name_nonempty_witness :
  "set_name('Bob')" <> "" /\
  parse_call_method_name "set_name('Bob')" = Ret ("set_name", [VStr "Bob"], []) /\
  "set_name" <> "".
Proof.
  split; [discriminate | split; [reflexivity |]].
  apply (method_name_nonempty "set_name('Bob')" "set_name" [VStr "Bob"] []).
  - exact sample_ids_nonempty.
  - discriminate.
  - reflexivity.
Defined.

Example parse_call_method_name_bare :
  parse_call_method_name "no_parens" = Ret ("no_parens", [], []).
Proof. reflexivity. Qed.

Lemma dollar_prefix_kept_witness :
  parse_call_method_name "$refresh()" = Ret ("$refresh", [], []) /\
  (("$refresh", [], []) : parsed_call) = (String "$" "refresh", [], []).
Proof.
  split; [reflexivity |].
  destruct (dollar_prefix_kept "refresh()" ("$refresh", [], []))
    as [_ Hcall]; [reflexivity |].
  apply (Hcall "refresh" []). reflexivity.
Defined.

Lemma call_with_non_name_callee_raises_witness :
  ast_parse "obj.method()"
    = Ret [Expr (Call (Attribute (Name "obj") "method") [] [])] /\
  parse_call_method_name "obj.method()" = Raise AttributeError.
Proof.
  split; [reflexivity |].
  apply (call_with_non_name_callee_raises "obj.method()"
           (Expr (Call (Attribute (Name "obj") "method") [] [])) []
           (Attribute (Name "obj") "method") [] []);
    reflexivity.
Defined.

(** The string that [eval_value] turns into a datetime when it is the whole
    input stays a string as an argument of a call. *)
Lemma string_literal_arguments_stay_strings_witness :
  parse_call_method_name "m('2020-01-01T00:00:00')"
    = Ret ("m", [VStr "2020-01-01T00:00:00"], []) /\
  nth_error [VStr "2020-01-01T00:00:00"] 0 = Some (VStr "2020-01-01T00:00:00") /\
  eval_value_calls (VNode (Constant (CStr "2020-01-01T00:00:00")))
    = ([], Ret (VStr "2020-01-01T00:00:00")).
Proof.
  split; [reflexivity |].
  destruct (string_literal_arguments_stay_strings "m('2020-01-01T00:00:00')"
              (Expr (Call (Name "m") [Constant (CStr "2020-01-01T00:00:00")] []))
              [] (Name "m") [Constant (CStr "2020-01-01T00:00:00")] []
              "m" [VStr "2020-01-01T00:00:00"] [])
    as (Hargs & _ & Hcalls);
    [exact sample_literal_eval_Constant | reflexivity | reflexivity
    | reflexivity |].
  split; [apply (Hargs 0%nat); reflexivity | apply Hcalls].
Defined.

Example parse_call_method_name_keyword :
  parse_call_method_name "m(when='2020-01-01T00:00:00')"
    = Ret ("m", [], [(Some "when", VStr "2020-01-01T00:00:00")]).
Proof. reflexivity. Qed.

(* ===================================================================== *)
(** ** The further properties on the sample runtime *)
(* ===================================================================== *)

(** [a.b.c]. *)
Lemma get_expr_string_dotted_witness :
  _get_expr_string (attribute_chain (Name "a") ["b"; "c"]) = "a.b.c".
Proof.
  apply (get_expr_string_dotted "a" ["b"; "c"]).
  repeat constructor; discriminate.
Defined.

(** [foo().b.c]. *)
Lemma get_expr_string_drops_root_witness :
  _get_expr_string (attribute_chain (Call (Name "foo") [] []) ["b"; "c"])
    = "b.c".
Proof.
  apply (get_expr_string_drops_root (Call (Name "foo") [] []) ["b"; "c"]);
    [reflexivity | reflexivity |].
  repeat constructor; discriminate.
Defined.

Lemma eval_value_Ret_origin_witness :
  eval_value (VStr "hello world") = Ret (VStr "hello world") /\
  literal_eval (VStr "hello world") = Raise SyntaxError.
Proof.
  split; [reflexivity |].
  destruct (eval_value_Ret_origin (VStr "hello world") (VStr "hello world"))
    as [H | (e & H & _)]; [reflexivity | discriminate H |].
  injection H as <-. reflexivity.
Defined.

Lemma eval_value_Raise_origin_witness :
  eval_value (VStr "some_undefined_name") = Raise ValueError /\
  literal_eval (VStr "some_undefined_name") = Raise ValueError.
Proof.
  split; [reflexivity |].
  destruct (eval_value_Raise_origin (VStr "some_undefined_name") ValueError)
    as [[H _] | (e0 & c & H & He0 & _)]; [reflexivity | exact H |].
  injection H as <-. discriminate He0.
Defined.

Lemma parse_kwarg_dotted_key_witness :
  parse_kwarg (rt := Extra.runtime) "a.b.c=1" false
    = Ret [("a.b.c", VConst (CInt 1))].
Proof.
  apply (parse_kwarg_dotted_key (rt := Extra.runtime) "a.b.c=1" "a" ["b"; "c"]
           [] (Constant (CInt 1)) [] (VConst (CInt 1)) false);
    [reflexivity | repeat constructor; discriminate | reflexivity].
Defined.

(** [a[0]=1]. *)
Lemma parse_kwarg_other_target_empty_key_witness :
  parse_kwarg (rt := Extra.runtime) "a[0]=1" false
    = Ret [("", VConst (CInt 1))].
Proof.
  apply (parse_kwarg_other_target_empty_key (rt := Extra.runtime) "a[0]=1"
           (Subscript (Name "a") (Constant (CInt 0))) [] (Constant (CInt 1))
           [] (VConst (CInt 1)) false);
    reflexivity.
Defined.

(** The empty text and a bare call. *)
Lemma parse_kwarg_not_assignment_witness :
  parse_kwarg "" false = Raise (InvalidKwarg "'' is invalid") /\
  parse_kwarg "refresh()" true = Raise (InvalidKwarg "'refresh()' is invalid").
Proof.
  split.
  - apply (parse_kwarg_not_assignment "" [] false); reflexivity.
  - apply (parse_kwarg_not_assignment "refresh()"
             [Expr (Call (Name "refresh") [] [])] true); reflexivity.
Defined.

Lemma parse_kwarg_no_SyntaxError_witness :
  ast_parse "not an assignment" = Raise SyntaxError /\
  is_SyntaxError (InvalidKwarg "'not an assignment' could not be parsed")
    = false.
Proof.
  split; [reflexivity |].
  apply (parse_kwarg_no_SyntaxError "not an assignment" false). reflexivity.
Defined.

(** [x=a.b.c]. *)
Lemma parse_kwarg_deferred_dotted_value_witness :
  parse_kwarg (rt := Extra.runtime) "x=a.b.c" false = Ret [("x", VStr "a.b.c")].
Proof.
  apply (parse_kwarg_deferred_dotted_value (rt := Extra.runtime) "x=a.b.c"
           "x" "a" ["b"; "c"] [] [] ValueError);
    [reflexivity | repeat constructor; discriminate | reflexivity | reflexivity].
Defined.

Lemma parse_call_not_a_call_witness :
  parse_call_method_name "$no_parens" = Ret ("$no_parens", [], []) /\
  parse_call_method_name "" = Ret ("", [], []).
Proof.
  split.
  - apply (parse_call_not_a_call "$no_parens" [Expr (Name "no_parens")]);
      [reflexivity |].
    right. exists (Expr (Name "no_parens")), [], (Some (Name "no_parens")).
    repeat split.
  - apply (parse_call_not_a_call "" []); [reflexivity | now left].
Defined.

Lemma parse_call_statement_without_value_witness :
  parse_call_method_name (rt := Extra.runtime) "pass" = Raise AttributeError.
Proof.
  apply (parse_call_statement_without_value (rt := Extra.runtime) "pass" []).
  reflexivity.
Defined.

(** [f(1, x)]: the second argument is a name. *)
Lemma parse_call_argument_error_witness :
  parse_call_method_name (rt := Extra.runtime) "f(1, x)" = Raise ValueError.
Proof.
  apply (parse_call_argument_error (rt := Extra.runtime) "f(1, x)"
           (Expr (Call (Name "f") [Constant (CInt 1); Name "x"] [])) []
           "f" [Constant (CInt 1)] [] (Name "x") [] ValueError);
    [reflexivity | reflexivity | | reflexivity].
  repeat constructor. now exists (VConst (CInt 1)).
Defined.

Lemma parse_call_positional_witness :
  parse_call_method_name (rt := Extra.runtime) "f(1, 'a', k=2, j='b')"
    = Ret ("f", [VConst (CInt 1); VStr "a"],
           [(Some "k", VConst (CInt 2)); (Some "j", VStr "b")]) /\
  Forall2 (fun arg v => eval_value (rt := Extra.runtime) (VNode arg) = Ret v)
    [Constant (CInt 1); Constant (CStr "a")] [VConst (CInt 1); VStr "a"].
Proof.
  split; [reflexivity |].
  apply (parse_call_positional (rt := Extra.runtime) "f(1, 'a', k=2, j='b')"
           (Expr (Call (Name "f") [Constant (CInt 1); Constant (CStr "a")]
                    [Keyword (Some "k") (Constant (CInt 2));
                     Keyword (Some "j") (Constant (CStr "b"))])) []
           (Name "f") [Constant (CInt 1); Constant (CStr "a")]
           [Keyword (Some "k") (Constant (CInt 2));
            Keyword (Some "j") (Constant (CStr "b"))]
           "f" [VConst (CInt 1); VStr "a"]
           [(Some "k", VConst (CInt 2)); (Some "j", VStr "b")]);
    reflexivity.
Defined.

Lemma parse_call_keywords_witness :
  NoDup [Some "k"; Some "j"] /\
  dict_get arg_eqb [(Some "k", VConst (CInt 2)); (Some "j", VStr "b")] (Some "k")
    = Some (VConst (CInt 2)).
Proof.
  destruct (parse_call_keywords (rt := Extra.runtime) "f(1, 'a', k=2, j='b')"
              (Expr (Call (Name "f") [Constant (CInt 1); Constant (CStr "a")]
                       [Keyword (Some "k") (Constant (CInt 2));
                        Keyword (Some "j") (Constant (CStr "b"))])) []
              (Name "f") [Constant (CInt 1); Constant (CStr "a")]
              [Keyword (Some "k") (Constant (CInt 2));
               Keyword (Some "j") (Constant (CStr "b"))]
              "f" [VConst (CInt 1); VStr "a"]
              [(Some "k", VConst (CInt 2)); (Some "j", VStr "b")])
    as (Hnodup & _ & _); [reflexivity | reflexivity | reflexivity |].
  split; [exact Hnodup | reflexivity].
Defined.
